(** * react-geolocation: distance computation and nearest-marker ranking

    A shallow embedding of [src/App.jsx]: the function [haversineDistance],
    the effect of [App] that derives, from the markers, the table of
    distances and the nearest marker, and the state of [App] with the
    callbacks that set it.

    JavaScript numbers are IEEE 754 binary64 values: they are modelled by
    Rocq's primitive [float], whose [+], [-], [*], [/], [sqrt] and [<] are
    the IEEE operations.  [Math.sin], [Math.cos] and [Math.atan2] are not
    part of the repository; ECMAScript fixes their results on special
    arguments and leaves the rest "implementation-approximated", which is
    what [Platform] and [js_sin], [js_cos] and [js_atan2] below say. *)

From Stdlib Require Import ZArith Lia Floats Reals Lra.
From stdpp Require Import gmap strings list.

Set Warnings "-register-all".

(** ** Arithmetic of a numeric expression

    [haversineDistance] is written once, over the operations a numeric
    JavaScript expression uses.  It is read at [float] (what the program
    computes) and at [R] (the exact value of the same expression). *)

Record Arith (N : Type) : Type := MkArith {
  num : Z -> N;
  add : N -> N -> N;
  sub : N -> N -> N;
  mul : N -> N -> N;
  div : N -> N -> N;
  Math_PI : N;
  Math_sin : N -> N;
  Math_cos : N -> N;
  Math_sqrt : N -> N;
  Math_atan2 : N -> N -> N
}.

Arguments num {N} _ _.
Arguments add {N} _ _ _.
Arguments sub {N} _ _ _.
Arguments mul {N} _ _ _.
Arguments div {N} _ _ _.
Arguments Math_PI {N} _.
Arguments Math_sin {N} _ _.
Arguments Math_cos {N} _ _.
Arguments Math_sqrt {N} _ _.
Arguments Math_atan2 {N} _ _ _.

Section Haversine.
Context {N : Type} (A : Arith N).

Local Notation "x + y" := (add A x y).
Local Notation "x - y" := (sub A x y).
Local Notation "x * y" := (mul A x y).
Local Notation "x / y" := (div A x y).
Local Notation "# z" := (num A z) (at level 1, format "# z").

(** [const toRad = (x) => (x * Math.PI) / 180;] *)
Definition toRad (x : N) : N := (x * Math_PI A) / #180.

(** [function haversineDistance(coords1, coords2)]: a coordinate is the
    array [[latitude, longitude]]. *)
Definition haversineDistance (coords1 coords2 : N * N) : N :=
  let lat1 := fst coords1 in
  let lon1 := snd coords1 in
  let lat2 := fst coords2 in
  let lon2 := snd coords2 in
  let R := #6371 in
  let dLat := toRad (lat2 - lat1) in
  let dLon := toRad (lon2 - lon1) in
  let a :=
    Math_sin A (dLat / #2) * Math_sin A (dLat / #2) +
    Math_cos A (toRad lat1) * Math_cos A (toRad lat2)
      * Math_sin A (dLon / #2) * Math_sin A (dLon / #2) in
  let c := #2 * Math_atan2 A (Math_sqrt A a) (Math_sqrt A (#1 - a)) in
  let d := R * c in
  d.
End Haversine.

(** ** JavaScript values and objects *)

(** The values a marker received from [response.json()] can hold, and
    [undefined], which reading an absent property gives.  Nested objects do
    not occur in the fields the program reads. *)
Inductive value : Type :=
  | VUndefined
  | VNull
  | VBool (b : bool)
  | VNum (n : float)
  | VStr (s : string)
  | VArr (vs : list value).

(** A plain object: its own properties by name. *)
Abbreviation object := (gmap string value).

(** [o.k] *)
Definition prop (o : object) (k : string) : value :=
  default VUndefined (o !! k).

(** What the program takes from the JavaScript engine. *)
Record Platform : Type := MkPlatform {
  sin_approx : float -> float;
  cos_approx : float -> float;
  atan2_approx : float -> float -> float;
  (** [ToNumber] on a string or an array (the engine's numeric parser). *)
  text_to_number : value -> float
}.

Inductive js_error : Type :=
  | TypeError.

(** How a computation that may throw completes. *)
Inductive outcome (A : Type) : Type :=
  | Returned (a : A)
  | Thrown (e : js_error).

Arguments Returned {A} a.
Arguments Thrown {A} e.

Definition bind {A B : Type} (m : outcome A) (k : A -> outcome B) : outcome B :=
  match m with
  | Returned a => k a
  | Thrown e => Thrown e
  end.

(** [Array.prototype.reduce] called without an initial value: the first
    element starts the accumulator, and an empty array throws a
    [TypeError]. *)
Definition reduce {A : Type} (f : A -> A -> A) (l : list A) : outcome A :=
  match l with
  | [] => Thrown TypeError
  | x :: xs => Returned (fold_left f xs x)
  end.

Section Program.
Context (P : Platform).

Local Open Scope float_scope.

Definition is_positive_zero (x : float) : bool :=
  match classify x with
  | PZero => true
  | _ => false
  end.

(** [Math.sin]: NaN, [+0] and [-0] are returned as they are, an infinity
    gives NaN. *)
Definition js_sin (x : float) : float :=
  if is_nan x || is_zero x then x
  else if is_infinity x then nan
  else sin_approx P x.

(** [Math.cos]: NaN and the infinities give NaN, a zero gives 1. *)
Definition js_cos (x : float) : float :=
  if is_nan x || is_infinity x then nan
  else if is_zero x then 1
  else cos_approx P x.

(** [Math.atan2 y x]: NaN when an argument is NaN; a zero [y] with
    [x > 0] or [x] the positive zero is returned as it is. *)
Definition js_atan2 (y x : float) : float :=
  if is_nan y || is_nan x then nan
  else if is_zero y && ((0 <? x) || is_positive_zero x) then y
  else atan2_approx P y x.

(** The numbers of the program: binary64 arithmetic, [Math.PI] the double
    nearest to pi, [Math.sqrt] the IEEE square root. *)
Definition js_arith : Arith float :=
  {| num := fun z => of_uint63 (Uint63.of_Z z);
     add := PrimFloat.add;
     sub := PrimFloat.sub;
     mul := PrimFloat.mul;
     div := PrimFloat.div;
     Math_PI := 0x1.921fb54442d18p+1;
     Math_sin := js_sin;
     Math_cos := js_cos;
     Math_sqrt := PrimFloat.sqrt;
     Math_atan2 := js_atan2 |}.

(** [ToNumber], applied by [-] and [*] to their operands. *)
Definition ToNumber (v : value) : float :=
  match v with
  | VUndefined => nan
  | VNull => 0
  | VBool true => 1
  | VBool false => 0
  | VNum n => n
  | VStr _ | VArr _ => text_to_number P v
  end.

(** The callback of [markers.map]:
    [{...marker, geocode: [marker.latitude, marker.longitude],
      distance: locationEnabled ? haversineDistance(position, [...]) : 0}].
    The properties of [marker] are copied, then [geocode] and [distance]
    are set.  [haversineDistance] uses the elements of its second
    argument only as operands of [-] and [*]: they are converted here. *)
Definition annotate (locationEnabled : bool) (position : float * float)
    (marker : object) : object :=
  <["distance" :=
      VNum (if locationEnabled
            then haversineDistance js_arith position
                   (ToNumber (prop marker "latitude"),
                    ToNumber (prop marker "longitude"))
            else 0)]>
    (<["geocode" := VArr [prop marker "latitude"; prop marker "longitude"]]>
       marker).

(** [r.distance] of an element of [newDistances], where [annotate] has
    stored a number. *)
Definition distance (r : object) : float :=
  match r !! "distance" with
  | Some (VNum d) => d
  | _ => nan
  end.

(** The callback of [newDistances.reduce]:
    [(prev, curr) => (prev.distance < curr.distance ? prev : curr)]. *)
Definition nearer (prev curr : object) : object :=
  if distance prev <? distance curr then prev else curr.

(** The effect of [App] that depends on [position], [locationEnabled] and
    [markers].  The first component is the list given to [setDistances];
    the second is how the rest completes: the value given to
    [setNearestMarker] ([None] is [null]), or the error thrown. *)
Definition rank (markers : list object) (locationEnabled : bool)
    (position : float * float) : list object * outcome (option object) :=
  let newDistances := annotate locationEnabled position <$> markers in
  (newDistances,
   if locationEnabled
   then bind (reduce nearer newDistances)
              (fun nearest => Returned (Some nearest))
   else Returned None).
End Program.

(** ** The same expression over the real numbers *)

(** The two-argument arctangent: the angle of the point [(x, y)]. *)
Definition Ratan2 (y x : R) : R :=
  if Rlt_dec 0 x then atan (y / x)
  else if Rlt_dec x 0 then
    if Rle_dec 0 y then atan (y / x) + PI else atan (y / x) - PI
  else if Rlt_dec 0 y then PI / 2
  else if Rlt_dec y 0 then - PI / 2
  else 0.


(** Degrees to radians. *)
Definition radians (degrees : R) : R := (degrees * PI / 180)%R.

(** The haversine formula as the specification words it.  Both
    coordinates are converted to radians, and
    [a = sin²(Δlat/2) + cos(lat1)·cos(lat2)·sin²(Δlon/2)]. *)
Definition haversine_term (p q : R * R) : R :=
  let lat1 := radians (fst p) in
  let lon1 := radians (snd p) in
  let lat2 := radians (fst q) in
  let lon2 := radians (snd q) in
  ((sin ((lat2 - lat1) / 2))² +
   cos lat1 * cos lat2 * (sin ((lon2 - lon1) / 2))²)%R.

(** The central angle is [c = 2·atan2(√a, √(1−a))] and the distance is
    [R·c] for the radius [R = 6371] km. *)
Definition great_circle_km (p q : R * R) : R :=
  let a := haversine_term p q in
  let c := (2 * Ratan2 (sqrt a) (sqrt (1 - a)))%R in
  (6371 * c)%R.

(** ** Predicates of the statements *)

(** What the theorems on [haversineDistance] ask of the engine, on the
    finite arguments where its approximations are used: a sine
    approximation that is odd, a cosine approximation within [-1, 1]. *)
Definition odd_sine (P : Platform) : Prop :=
  forall x, is_finite x = true ->
    sin_approx P (- x)%float = (- sin_approx P x)%float.

Definition bounded_cosine (P : Platform) : Prop :=
  forall x, is_finite x = true ->
    (PrimFloat.abs (cos_approx P x) <=? 1)%float = true.

(** A zero, or a finite number whose exponent is at most [B]. *)
Definition exponent_le (B : Z) (x : spec_float) : Prop :=
  match x with
  | S754_zero _ => True
  | S754_finite _ _ e => (e <= B)%Z
  | _ => False
  end.

(** ** Sample inputs *)

(** A marker as the API gives it. *)
Definition cyber (id : float) (name : string) (latitude longitude : float)
    : object :=
  <["id" := VNum id]> (<["name" := VStr name]>
    (<["latitude" := VNum latitude]> (<["longitude" := VNum longitude]> ∅))).

Definition origin : float * float := (0%float, 0%float).

(** Two markers at the same place. *)
Definition twin_a : object := cyber 1 "A" 0 0.
Definition twin_b : object := cyber 2 "B" 0 0.

(** An observer at latitude -12, longitude -180, a marker at that place
    and a marker at its antipode: all within the ranges of a
    coordinate. *)
Definition far_west : float * float := ((-12)%float, (-180)%float).
Definition at_far_west : object := cyber 5 "E" (-12) (-180).
Definition antipode : object := cyber 6 "F" 12 0.

(** A marker whose data already has a property named [distance]. *)
Definition walker : object := <["distance" := VStr "far"]> (cyber 4 "D" 0 0).

(** What [annotate] makes of the samples when the observer is at
    [origin]. *)
Definition ranked_twin_a : object :=
  <["distance" := VNum 0%float]>
    (<["geocode" := VArr [VNum 0%float; VNum 0%float]]> twin_a).

Definition ranked_twin_b : object :=
  <["distance" := VNum 0%float]>
    (<["geocode" := VArr [VNum 0%float; VNum 0%float]]> twin_b).

(** What it makes of the antipodal samples for the observer at
    [far_west], on [rounding_engine] below. *)
Definition ranked_at_far_west : object :=
  <["distance" := VNum 0%float]>
    (<["geocode" := VArr [VNum (-12)%float; VNum (-180)%float]]> at_far_west).

Definition ranked_antipode : object :=
  <["distance" := VNum nan]>
    (<["geocode" := VArr [VNum 12%float; VNum 0%float]]> antipode).

(** A platform to run examples on: the approximations are the crudest
    ones with the symmetries of sine and cosine. *)
Definition sample_platform : Platform :=
  {| sin_approx := fun x => x;
     cos_approx := fun _ => 1%float;
     atan2_approx := fun y _ => y;
     text_to_number := fun _ => nan |}.

(** ** The component [App]: its state and its event handlers

    The state variables of [App] ([useState]), and what each callback of
    the component does to them.  A callback sets state; React then runs
    the effect whose dependencies ([position], [locationEnabled],
    [markers]) were set, on the new state.  An error thrown by the effect
    is not caught by any boundary: the component is gone.

    The render that follows each state change (the map and its Leaflet
    markers, the table) is outside this model.  It can throw where the
    handlers below return, so the model throws in no more sessions than
    the component does. *)

Module App.

Record State : Type := MkState {
  position : float * float;
  distances : list object;
  locationEnabled : bool;
  (** [null], or the array [[latitude, longitude]] of the last request. *)
  zoomTarget : option (list value);
  nearestMarker : option object;
  markers : list object
}.

(** The initial values given to [useState]. *)
Definition initial : State :=
  {| position := (0%float, 0%float);
     distances := [];
     locationEnabled := false;
     zoomTarget := None;
     nearestMarker := None;
     markers := [] |}.

Inductive event : Type :=
  (** The map's [locationfound] event, with [e.latitude], [e.longitude]. *)
  | locationfound (latitude longitude : float)
  (** The [fetch] of [/cybers] resolved with this JSON array. *)
  | fetched (data : list object)
  (** The [fetch] (or the parsing of its body) was rejected. *)
  | fetch_failed
  (** The Zoom button of the table row with this index was clicked. *)
  | zoom_clicked (row : nat).

Section Handlers.
Context (P : Platform).

(** The effect on [[position, locationEnabled, markers]]:
    [setDistances(newDistances)], then [setNearestMarker]. *)
Definition effect (s : State) : outcome State :=
  let '(newDistances, completion) :=
    rank P (markers s) (locationEnabled s) (position s) in
  bind completion (fun nearest =>
    Returned {| position := position s;
                distances := newDistances;
                locationEnabled := locationEnabled s;
                zoomTarget := zoomTarget s;
                nearestMarker := nearest;
                markers := markers s |}).

Definition handle (e : event) (s : State) : outcome State :=
  match e with
  | locationfound latitude longitude =>
      (* setPosition([e.latitude, e.longitude]); setLocationEnabled(true) *)
      effect {| position := (latitude, longitude);
                distances := distances s;
                locationEnabled := true;
                zoomTarget := zoomTarget s;
                nearestMarker := nearestMarker s;
                markers := markers s |}
  | fetched data =>
      (* setMarkers(data) *)
      effect {| position := position s;
                distances := distances s;
                locationEnabled := locationEnabled s;
                zoomTarget := zoomTarget s;
                nearestMarker := nearestMarker s;
                markers := data |}
  | fetch_failed =>
      (* console.error(...): no state is set *)
      Returned s
  | zoom_clicked row =>
      (* the rows are [distances.map(...)]; the button calls
         setZoomTarget([marker.latitude, marker.longitude]) *)
      match distances s !! row with
      | Some marker =>
          Returned {| position := position s;
                      distances := distances s;
                      locationEnabled := locationEnabled s;
                      zoomTarget :=
                        Some [prop marker "latitude"; prop marker "longitude"];
                      nearestMarker := nearestMarker s;
                      markers := markers s |}
      | None => Returned s
      end
  end.

(** The events of a session, in order, until one throws. *)
Fixpoint run (events : list event) (s : State) : outcome State :=
  match events with
  | [] => Returned s
  | e :: events' => bind (handle e s) (run events')
  end.
End Handlers.

(** The coordinates of the last [locationfound] among the events, and the
    data of the last [fetched]. *)
Fixpoint last_fix (events : list event) : option (float * float) :=
  match events with
  | [] => None
  | e :: events' =>
      match last_fix events' with
      | Some c => Some c
      | None =>
          match e with
          | locationfound latitude longitude => Some (latitude, longitude)
          | _ => None
          end
      end
  end.

Fixpoint last_fetched (events : list event) : option (list object) :=
  match events with
  | [] => None
  | e :: events' =>
      match last_fetched events' with
      | Some data => Some data
      | None =>
          match e with
          | fetched data => Some data
          | _ => None
          end
      end
  end.

(** The derived state agrees with the state it is derived from. *)
Definition consistent (P : Platform) (s : State) : Prop :=
  distances s
  = annotate P (locationEnabled s) (position s) <$> markers s /\
  match nearestMarker s with
  | Some r => locationEnabled s = true /\ r ∈ distances s
  | None => locationEnabled s = false
  end.

End App.

(** An engine that returns the correctly rounded sine and cosine at the
    arguments the antipodal samples reach: the sine of
    [0.20943951023931953] (12 degrees) and of [1.5707963267948966], and
    the cosine of plus and minus [0.20943951023931953]. *)
Definition rounding_engine : Platform :=
  {| sin_approx := fun x =>
       if (x =? 0x1.acee9f37bebd5p-3)%float then 0x1.a9cd9ac4258f5p-3%float
       else if (x =? 0x1.921fb54442d18p+0)%float then 1%float
       else x;
     cos_approx := fun x =>
       if (PrimFloat.abs x =? 0x1.acee9f37bebd5p-3)%float
       then 0x1.f4cfc327a0080p-1%float
       else 1%float;
     atan2_approx := fun y _ => y;
     text_to_number := fun _ => nan |}.

(** * Facts on binary64 arithmetic

    Derived from the specification of the primitive operations
    ([Prim2SF] and the [_spec] statements of the standard library). *)

Section FloatFacts.
Local Open Scope float_scope.

Lemma SFcompare_refl_finite s m e :
  SFcompare (S754_finite s m e) (S754_finite s m e) = Some Eq.
Proof.
  simpl. rewrite Z.compare_refl.
  change (Pos.compare_cont Eq m m) with (Pos.compare m m).
  rewrite Pos.compare_refl. by destruct s.
Qed.

Lemma is_nan_spec x :
  is_nan x = match Prim2SF x with S754_nan => true | _ => false end.
Proof.
  unfold is_nan. rewrite FloatAxioms.eqb_spec. unfold SFeqb.
  destruct (Prim2SF x) as [s|s| |s m e]; try done; try by destruct s.
  by rewrite SFcompare_refl_finite.
Qed.

Lemma is_zero_spec x :
  is_zero x = match Prim2SF x with S754_zero _ => true | _ => false end.
Proof.
  unfold is_zero. rewrite FloatAxioms.eqb_spec. unfold SFeqb.
  change (Prim2SF zero) with (S754_zero false).
  destruct (Prim2SF x) as [s|s| |s m e]; try done; by destruct s.
Qed.

Lemma is_infinity_spec x :
  is_infinity x = match Prim2SF x with S754_infinity _ => true | _ => false end.
Proof.
  unfold is_infinity. rewrite FloatAxioms.eqb_spec, abs_spec. unfold SFeqb.
  change (Prim2SF infinity) with (S754_infinity false).
  destruct (Prim2SF x) as [s|s| |s m e]; try done; by destruct s.
Qed.

Lemma SFcompare_antisym x y :
  SFcompare y x = CompOpp <$> SFcompare x y.
Proof.
  destruct x as [sx|sx| |sx mx ex], y as [sy|sy| |sy my ey]; simpl;
    try reflexivity; try (by destruct sx); try (by destruct sy);
    try (by destruct sx, sy).
  change (Pos.compare_cont Eq ?a ?b) with (Pos.compare a b).
  rewrite (Z.compare_antisym ex ey), (Pos.compare_antisym mx my).
  destruct sx, sy; simpl; try reflexivity;
    destruct (ex ?= ey)%Z; simpl; try reflexivity;
    destruct (mx ?= my)%positive; reflexivity.
Qed.

Lemma SFleb_trans x y z :
  SFleb x y = true -> SFleb y z = true -> SFleb x z = true.
Proof.
  unfold SFleb.
  destruct x as [sx|sx| |sx mx ex], y as [sy|sy| |sy my ey],
    z as [sz|sz| |sz mz ez]; simpl;
    try reflexivity; try discriminate;
    try (by destruct sx); try (by destruct sy); try (by destruct sz);
    try (by destruct sx, sy); try (by destruct sx, sz); try (by destruct sy, sz);
    try (by destruct sx, sy, sz).
  change (Pos.compare_cont Eq ?a ?b) with (Pos.compare a b).
  destruct sx, sy, sz; simpl; try reflexivity; try discriminate;
    destruct (Z.compare_spec ex ey), (Z.compare_spec ey ez), (Z.compare_spec ex ez);
    simpl; try reflexivity; try discriminate; try lia; subst;
    destruct (Pos.compare_spec mx my), (Pos.compare_spec my mz), (Pos.compare_spec mx mz);
    simpl; try reflexivity; try discriminate; try lia.
Qed.

Lemma SFcompare_None x y :
  SFcompare x y = None -> x = S754_nan \/ y = S754_nan.
Proof.
  destruct x as [sx|sx| |sx mx ex], y as [sy|sy| |sy my ey]; simpl;
    auto; try discriminate; try (by destruct sx); try (by destruct sy).
Qed.

Lemma leb_trans x y z :
  (x <=? y) = true -> (y <=? z) = true -> (x <=? z) = true.
Proof. rewrite !leb_spec. apply SFleb_trans. Qed.

Lemma ltb_leb x y : (x <? y) = true -> (x <=? y) = true.
Proof.
  rewrite ltb_spec, leb_spec. unfold SFltb, SFleb.
  by destruct (SFcompare _ _) as [[]|].
Qed.

Lemma leb_refl x : is_nan x = false -> (x <=? x) = true.
Proof.
  rewrite is_nan_spec, leb_spec. unfold SFleb.
  destruct (Prim2SF x) as [s|s| |s m e]; try done; try by destruct s.
  by rewrite SFcompare_refl_finite.
Qed.

Lemma ltb_false_leb x y :
  is_nan x = false -> is_nan y = false ->
  (x <? y) = false -> (y <=? x) = true.
Proof.
  rewrite !is_nan_spec, ltb_spec, leb_spec. unfold SFltb, SFleb.
  intros Hx Hy. rewrite (SFcompare_antisym (Prim2SF x) (Prim2SF y)).
  destruct (SFcompare (Prim2SF x) (Prim2SF y)) as [[]|] eqn:E; try done.
  apply SFcompare_None in E as [E|E]; rewrite E in *; done.
Qed.

Lemma leb_ltb_false x y : (x <=? y) = true -> (y <? x) = false.
Proof.
  rewrite ltb_spec, leb_spec. unfold SFltb, SFleb.
  rewrite (SFcompare_antisym (Prim2SF x) (Prim2SF y)).
  by destruct (SFcompare (Prim2SF x) (Prim2SF y)) as [[]|].
Qed.

Lemma leb_neq_ltb x y :
  (x <=? y) = true -> (y =? x) = false -> (x <? y) = true.
Proof.
  rewrite ltb_spec, leb_spec, FloatAxioms.eqb_spec. unfold SFltb, SFleb, SFeqb.
  rewrite (SFcompare_antisym (Prim2SF x) (Prim2SF y)).
  by destruct (SFcompare (Prim2SF x) (Prim2SF y)) as [[]|].
Qed.

(** Sign symmetry of rounding and of the operations. *)

Lemma binary_round_aux_opp s m e l :
  SFopp (binary_round_aux prec emax s m e l)
  = binary_round_aux prec emax (negb s) m e l.
Proof.
  unfold binary_round_aux.
  destruct (shr_fexp prec emax m e l) as [mrs' e'].
  destruct (shr_fexp prec emax _ e' loc_Exact) as [mrs'' e''].
  destruct (shr_m mrs''); try done.
  by destruct (e'' <=? emax - prec)%Z.
Qed.

Lemma binary_round_opp s m e :
  SFopp (binary_round prec emax s m e) = binary_round prec emax (negb s) m e.
Proof.
  unfold binary_round. destruct (shl_align _ _ _) as [mz ez].
  apply binary_round_aux_opp.
Qed.

Lemma SFopp_involutive x : SFopp (SFopp x) = x.
Proof. destruct x as [s|s| |s m e]; simpl; by rewrite ?negb_involutive. Qed.

Lemma SFmul_opp_l x y :
  SFmul prec emax (SFopp x) y = SFopp (SFmul prec emax x y).
Proof.
  destruct x as [sx|sx| |sx mx ex], y as [sy|sy| |sy my ey]; simpl;
    try done; try by destruct sx, sy.
  rewrite binary_round_aux_opp. by destruct sx, sy.
Qed.

Lemma SFmul_comm x y : SFmul prec emax x y = SFmul prec emax y x.
Proof.
  destruct x as [sx|sx| |sx mx ex], y as [sy|sy| |sy my ey]; simpl;
    try done; try by destruct sx, sy.
  by rewrite Pos.mul_comm, Z.add_comm, xorb_comm.
Qed.

Lemma SFdiv_opp_l x y :
  SFdiv prec emax (SFopp x) y = SFopp (SFdiv prec emax x y).
Proof.
  destruct x as [sx|sx| |sx mx ex], y as [sy|sy| |sy my ey]; simpl;
    try done; try by destruct sx, sy.
  destruct (SFdiv_core_binary _ _ _ _ _ _) as [[mz ez] lz].
  rewrite binary_round_aux_opp. by destruct sx, sy.
Qed.

Lemma SFsub_swap x y :
  SFsub prec emax y x = SFopp (SFsub prec emax x y)
  \/ SFsub prec emax y x = SFsub prec emax x y.
Proof.
  destruct x as [sx|sx| |sx mx ex], y as [sy|sy| |sy my ey]; simpl;
    auto; try (by destruct sx, sy; auto); try (by destruct sx; auto);
    try (by destruct sy; auto).
  rewrite (Z.min_comm ey ex).
  set (a := cond_Zopp sx _). set (b := cond_Zopp sy _).
  replace (b - a)%Z with (- (a - b))%Z by lia.
  destruct (a - b)%Z as [|p|p]; simpl; auto; left;
    by rewrite binary_round_opp.
Qed.

Lemma opp_involutive x : - - x = x.
Proof. apply Prim2SF_inj. by rewrite !opp_spec, SFopp_involutive. Qed.

Lemma mul_opp_l x y : (- x) * y = - (x * y).
Proof.
  apply Prim2SF_inj. rewrite opp_spec, !mul_spec, opp_spec.
  apply SFmul_opp_l.
Qed.

Lemma mul_comm x y : x * y = y * x.
Proof. apply Prim2SF_inj. rewrite !mul_spec. apply SFmul_comm. Qed.

Lemma mul_opp_r x y : x * (- y) = - (x * y).
Proof. by rewrite mul_comm, mul_opp_l, mul_comm. Qed.

Lemma div_opp_l x y : (- x) / y = - (x / y).
Proof.
  apply Prim2SF_inj. rewrite opp_spec, !div_spec, opp_spec.
  apply SFdiv_opp_l.
Qed.

Lemma sub_swap x y : y - x = - (x - y) \/ y - x = x - y.
Proof.
  destruct (SFsub_swap (Prim2SF x) (Prim2SF y)) as [H|H]; [left|right];
    apply Prim2SF_inj; by rewrite ?opp_spec, !sub_spec.
Qed.

End FloatFacts.

Section RoundingBounds.
Local Open Scope Z_scope.

(** No overflow: a bound on the exponent through rounding. *)

Lemma digits2_pos_size p : digits2_pos p = Pos.size p.
Proof. induction p; simpl; congruence. Qed.

Lemma Zdigits2_log2 z : (0 < z)%Z -> Zdigits2 z = (Z.log2 z + 1)%Z.
Proof.
  destruct z as [|p|p]; try lia. intros _. simpl.
  rewrite digits2_pos_size. destruct p; simpl; lia.
Qed.

Lemma Zdigits2_mono a b : (0 <= a <= b)%Z -> (Zdigits2 a <= Zdigits2 b)%Z.
Proof.
  intros [Ha Hab]. destruct (Z.eq_dec a 0) as [->|].
  - destruct b; simpl; lia.
  - rewrite !Zdigits2_log2 by lia.
    pose proof (Z.log2_le_mono a b Hab). lia.
Qed.

Lemma Zdigits2_succ a : (0 <= a)%Z -> (Zdigits2 (a + 1) <= Zdigits2 a + 1)%Z.
Proof.
  intros Ha. destruct (Z.eq_dec a 0) as [->|]; [simpl; lia|].
  rewrite !Zdigits2_log2 by lia.
  pose proof (Z.log2_succ_le a). unfold Z.succ in *. lia.
Qed.

Lemma Zdigits2_mul a b :
  (0 < a)%Z -> (0 < b)%Z -> (Zdigits2 (a * b) <= Zdigits2 a + Zdigits2 b)%Z.
Proof.
  intros Ha Hb. rewrite !Zdigits2_log2 by lia.
  pose proof (Z.log2_mul_above a b). lia.
Qed.

Lemma Zdigits2_shiftl a n :
  (0 < a)%Z -> (0 <= n)%Z -> Zdigits2 (Z.shiftl a n) = (Zdigits2 a + n)%Z.
Proof.
  intros Ha Hn.
  assert (0 < Z.shiftl a n)%Z by (rewrite Z.shiftl_mul_pow2 by lia; nia).
  rewrite !Zdigits2_log2, Z.log2_shiftl by lia. lia.
Qed.

Lemma shr_1_bounds mrs :
  (0 <= shr_m mrs)%Z -> (0 <= shr_m (shr_1 mrs) <= shr_m mrs)%Z.
Proof.
  destruct mrs as [m r t]. simpl.
  destruct m as [|[p|p|]|[p|p|]]; simpl; lia.
Qed.

Lemma iter_shr_1_bounds p mrs :
  (0 <= shr_m mrs)%Z -> (0 <= shr_m (SpecFloat.iter_pos shr_1 p mrs) <= shr_m mrs)%Z.
Proof.
  revert mrs. induction p as [p IH|p IH|]; intros mrs H; simpl.
  - pose proof (shr_1_bounds mrs H).
    pose proof (IH (shr_1 mrs) ltac:(lia)).
    pose proof (IH (SpecFloat.iter_pos shr_1 p (shr_1 mrs)) ltac:(lia)). lia.
  - pose proof (IH mrs H).
    pose proof (IH (SpecFloat.iter_pos shr_1 p mrs) ltac:(lia)). lia.
  - by apply shr_1_bounds.
Qed.

Lemma shr_fexp_bounds m e l :
  (0 <= m)%Z ->
  (0 <= shr_m (shr_fexp prec emax m e l).1 <= m)%Z /\
  ((shr_fexp prec emax m e l).2 = e \/
   (shr_fexp prec emax m e l).2 = fexp prec emax (Zdigits2 m + e)).
Proof.
  intros Hm. unfold shr_fexp, shr.
  assert (shr_m (shr_record_of_loc m l) = m) as Hl by (by destruct l as [|[]]).
  destruct (fexp prec emax (Zdigits2 m + e) - e)%Z as [|p|p] eqn:E; simpl;
    rewrite ?Hl; try (split; [lia|by left]).
  split; [|right; lia].
  pose proof (iter_shr_1_bounds p (shr_record_of_loc m l)). lia.
Qed.

Lemma round_nearest_even_bounds m l :
  (m <= round_nearest_even m l <= m + 1)%Z.
Proof. destruct l as [|[]]; simpl; try lia. destruct (Z.even m); lia. Qed.

Lemma binary_round_aux_bounds s m e l D E :
  (0 <= m)%Z -> (Zdigits2 m <= D)%Z -> (e <= E)%Z ->
  (Z.max (E + D) emin + D + 1 <= emax - prec)%Z ->
  match binary_round_aux prec emax s m e l with
  | S754_zero s' => s' = s
  | S754_finite s' _ e' => s' = s /\ (e' <= Z.max (E + D) emin + D + 1)%Z
  | _ => False
  end.
Proof.
  intros Hm HD HE HB. unfold binary_round_aux.
  destruct (shr_fexp_bounds m e l Hm) as [Hm1 He1].
  destruct (shr_fexp prec emax m e l) as [mrs1 e1]. simpl in Hm1, He1.
  pose proof (round_nearest_even_bounds (shr_m mrs1) (loc_of_shr_record mrs1)) as Hr.
  set (m2 := round_nearest_even _ _) in *.
  destruct (shr_fexp_bounds m2 e1 loc_Exact ltac:(lia)) as [Hm3 He3].
  destruct (shr_fexp prec emax m2 e1 loc_Exact) as [mrs3 e3]. simpl in Hm3, He3.
  assert (Zdigits2 m2 <= D + 1)%Z as HD2.
  { etrans; [apply (Zdigits2_mono m2 (shr_m mrs1 + 1)); lia|].
    etrans; [apply Zdigits2_succ; lia|].
    pose proof (Zdigits2_mono (shr_m mrs1) m). lia. }
  assert (e3 <= Z.max (E + D) emin + D + 1)%Z as He.
  { pose proof (Zdigits2_mono 0 m ltac:(lia)) as H0. simpl in H0.
    unfold fexp, SpecFloat.emin in *. unfold prec, emax in *. lia. }
  destruct (shr_m mrs3) as [|p|p]; try done; [|lia].
  destruct (Z.leb_spec e3 (emax - prec)); [done|].
  unfold prec, emax in *. lia.
Qed.

Lemma valid_binary_finite s m e :
  valid_binary (S754_finite s m e) = true ->
  (Zdigits2 (Z.pos m) <= prec)%Z /\ (emin <= e)%Z.
Proof.
  simpl. unfold bounded, canonical_mantissa.
  intros [H _]%andb_prop. apply Z.eqb_eq in H.
  unfold fexp, SpecFloat.emin, prec, emax in *. lia.
Qed.

Lemma SFmul_bounds x y Bx By :
  valid_binary x = true -> valid_binary y = true ->
  exponent_le Bx x -> exponent_le By y ->
  (Z.max (Bx + By + 106) emin + 107 <= emax - prec)%Z ->
  exponent_le (Z.max (Bx + By + 106) emin + 107) (SFmul prec emax x y).
Proof.
  intros Vx Vy Hx Hy HB.
  destruct x as [sx|sx| |sx mx ex], y as [sy|sy| |sy my ey]; simpl in *; try done.
  apply (valid_binary_finite sx) in Vx as [Dx _].
  apply (valid_binary_finite sy) in Vy as [Dy _].
  pose proof (Zdigits2_mul (Z.pos mx) (Z.pos my) ltac:(lia) ltac:(lia)) as Hd.
  pose proof (binary_round_aux_bounds (xorb sx sy) (Z.pos (mx * my)) (ex + ey)
    loc_Exact 106 (Bx + By)) as H.
  unfold prec in Dx, Dy.
  rewrite Pos2Z.inj_mul in H.
  specialize (H ltac:(lia) ltac:(lia) ltac:(lia) ltac:(lia)).
  rewrite <- Pos2Z.inj_mul in H.
  destruct (binary_round_aux _ _ _ _ _ _); simpl; try done.
  destruct H. lia.
Qed.

Lemma SFmul_self_zero c :
  valid_binary c = true -> exponent_le (-52) c ->
  SFmul prec emax (SFmul prec emax c c) (S754_zero false) = S754_zero false.
Proof.
  intros V H. destruct c as [s|s| |s m e]; simpl in *; try done.
  { by destruct s. }
  apply (valid_binary_finite s) in V as [D _]. unfold prec in D.
  pose proof (Zdigits2_mul (Z.pos m) (Z.pos m) ltac:(lia) ltac:(lia)) as Hd.
  pose proof (binary_round_aux_bounds (xorb s s) (Z.pos (m * m)) (e + e)
    loc_Exact 106 (-104)) as Hr.
  rewrite Pos2Z.inj_mul in Hr.
  specialize (Hr ltac:(lia) ltac:(lia) ltac:(lia)
    ltac:(unfold SpecFloat.emin, prec, emax; lia)).
  rewrite <- Pos2Z.inj_mul in Hr.
  destruct (binary_round_aux _ _ _ _ _ _) as [s'|s'| |s' m' e']; simpl;
    try done; [|destruct Hr as [Hr _]]; subst s'; by destruct s.
Qed.

Lemma SFdiv_core_binary_bounds mx ex my ey :
  (Zdigits2 (Z.pos mx) <= prec) -> (Zdigits2 (Z.pos my) <= prec) ->
  let '(q, e, _) := SFdiv_core_binary prec emax (Z.pos mx) ex (Z.pos my) ey in
  0 <= q /\ Zdigits2 q <= 159 /\ e <= ex - ey.
Proof.
  intros Dx Dy. unfold SFdiv_core_binary.
  set (d1 := Zdigits2 (Z.pos mx)) in *. set (d2 := Zdigits2 (Z.pos my)) in *.
  set (e' := Z.min _ _). set (s := ex - ey - e').
  assert (1 <= d1 /\ 1 <= d2) as [H1 H2] by (unfold d1, d2; simpl; lia).
  assert (0 <= s <= 106) as Hs.
  { unfold s, e', fexp, SpecFloat.emin, prec, emax in *. lia. }
  set (m' := match s with Z.pos _ => Z.shiftl (Z.pos mx) s | 0 => Z.pos mx
             | Z.neg _ => 0 end).
  assert (0 <= m' /\ Zdigits2 m' <= 159) as [Hm Hdm].
  { unfold m'. destruct s as [|p|p] eqn:E; try lia.
    - fold d1. unfold prec in Dx. lia.
    - rewrite Zdigits2_shiftl by lia. fold d1. unfold prec in Dx.
      split; [|lia]. rewrite Z.shiftl_mul_pow2 by lia.
      pose proof (Z.pow_pos_nonneg 2 (Z.pos p)). nia. }
  pose proof (Z_div_mod m' (Z.pos my) ltac:(lia)) as Hq.
  destruct (Z.div_eucl m' (Z.pos my)) as [q r].
  assert (0 <= q <= m') as Hqb by nia.
  pose proof (Zdigits2_mono q m' Hqb).
  unfold e'. lia.
Qed.

Lemma SFdiv_bounds x sy my ey Bx :
  valid_binary x = true -> valid_binary (S754_finite sy my ey) = true ->
  exponent_le Bx x ->
  Z.max (Bx - ey + 159) emin + 160 <= emax - prec ->
  exponent_le (Z.max (Bx - ey + 159) emin + 160)
    (SFdiv prec emax x (S754_finite sy my ey)).
Proof.
  intros Vx Vy Hx HB.
  destruct x as [sx|sx| |sx mx ex]; simpl in Hx |- *; try done.
  apply (valid_binary_finite sx) in Vx as [Dx _].
  apply (valid_binary_finite sy) in Vy as [Dy _].
  pose proof (SFdiv_core_binary_bounds mx ex my ey Dx Dy) as Hc.
  destruct (SFdiv_core_binary _ _ _ _ _ _) as [[q e] l].
  destruct Hc as (Hq & Hd & He).
  pose proof (binary_round_aux_bounds (xorb sx sy) q e l 159 (Bx - ey)
    ltac:(lia) ltac:(lia) ltac:(lia) ltac:(lia)) as Hr.
  destruct (binary_round_aux _ _ _ _ _ _); simpl; try done.
  destruct Hr. lia.
Qed.
End RoundingBounds.

(** * The ranking effect *)

Section RankFacts.
Context (P : Platform).

Local Open Scope float_scope.

Implicit Types (markers : list object) (position : float * float).
Implicit Types (m r prev curr : object).

Lemma annotate_distance enabled position m :
  annotate P enabled position m !! "distance"
  = Some (VNum (if enabled
                then haversineDistance (js_arith P) position
                       (ToNumber P (prop m "latitude"),
                        ToNumber P (prop m "longitude"))
                else 0)).
Proof. unfold annotate. by rewrite lookup_insert_eq. Qed.

Lemma annotate_geocode enabled position m :
  annotate P enabled position m !! "geocode"
  = Some (VArr [prop m "latitude"; prop m "longitude"]).
Proof.
  unfold annotate. rewrite lookup_insert_ne by done.
  by rewrite lookup_insert_eq.
Qed.

Lemma annotate_other enabled position m k :
  k ≠ "geocode" -> k ≠ "distance" ->
  annotate P enabled position m !! k = m !! k.
Proof.
  intros Hg Hd. unfold annotate. by rewrite !lookup_insert_ne.
Qed.

Lemma distance_annotate enabled position m :
  distance (annotate P enabled position m)
  = if enabled
    then haversineDistance (js_arith P) position
           (ToNumber P (prop m "latitude"), ToNumber P (prop m "longitude"))
    else 0.
Proof. unfold distance. by rewrite annotate_distance. Qed.

Lemma nearer_cases prev curr :
  nearer prev curr = prev \/ nearer prev curr = curr.
Proof. unfold nearer. destruct (_ <? _); auto. Qed.

Lemma fold_nearer_elem (l : list object) prev :
  fold_left nearer l prev ∈ prev :: l.
Proof.
  revert prev. induction l as [|curr l IH]; intros prev; simpl.
  - apply list_elem_of_here.
  - specialize (IH (nearer prev curr)). rewrite !elem_of_cons in *.
    destruct (nearer_cases prev curr) as [E|E]; rewrite E in *; tauto.
Qed.

(** While every later element is strictly farther, the accumulator
    stays. *)
Lemma fold_nearer_keeps (l : list object) r :
  (forall y, y ∈ l -> (distance r <? distance y) = true) ->
  fold_left nearer l r = r.
Proof.
  induction l as [|y l IH]; intros H; simpl; [done|].
  unfold nearer at 2. rewrite (H y) by apply list_elem_of_here.
  apply IH. intros; by apply H, list_elem_of_further.
Qed.

(** An element not farther than the accumulator replaces it. *)
Lemma nearer_takes_current prev r :
  (distance r <=? distance prev) = true -> nearer prev r = r.
Proof. intros H. unfold nearer. by rewrite (leb_ltb_false _ _ H). Qed.

Lemma nearer_le prev curr :
  is_nan (distance prev) = false -> is_nan (distance curr) = false ->
  (distance (nearer prev curr) <=? distance prev) = true /\
  (distance (nearer prev curr) <=? distance curr) = true.
Proof.
  intros Hp Hc. unfold nearer.
  destruct (distance prev <? distance curr) eqn:E; split;
    auto using leb_refl, ltb_leb, ltb_false_leb.
Qed.

(** Without NaN among the distances, the fold ends on a minimum. *)
Lemma fold_nearer_minimal (l : list object) prev :
  (forall y, y ∈ prev :: l -> is_nan (distance y) = false) ->
  forall y, y ∈ prev :: l ->
    (distance (fold_left nearer l prev) <=? distance y) = true.
Proof.
  revert prev. induction l as [|curr l IH]; intros prev Hn y Hy; simpl.
  - apply list_elem_of_singleton in Hy as ->.
    apply leb_refl, Hn, list_elem_of_here.
  - destruct (nearer_le prev curr) as [Hp Hc].
    { apply Hn, list_elem_of_here. }
    { apply Hn, list_elem_of_further, list_elem_of_here. }
    assert (forall z, z ∈ nearer prev curr :: l ->
              (distance (fold_left nearer l (nearer prev curr)) <=? distance z)
              = true) as Hmin.
    { apply IH. intros z Hz. apply Hn. rewrite !elem_of_cons in *.
      destruct (nearer_cases prev curr) as [E|E]; rewrite E in Hz; tauto. }
    pose proof (Hmin _ (list_elem_of_here _ _)) as Hbest.
    rewrite !elem_of_cons in Hy. destruct Hy as [->|[->|Hy]].
    + by eapply leb_trans.
    + by eapply leb_trans.
    + by apply Hmin, list_elem_of_further.
Qed.

Lemma reduce_nearer_last_minimum (l1 l2 : list object) r :
  (forall y, y ∈ l1 -> (distance r <=? distance y) = true) ->
  (forall y, y ∈ l2 -> (distance r <? distance y) = true) ->
  reduce nearer (l1 ++ r :: l2) = Returned r.
Proof.
  intros H1 H2. destruct l1 as [|x l1]; simpl; f_equal.
  - by apply fold_nearer_keeps.
  - rewrite fold_left_app. simpl.
    rewrite nearer_takes_current; [by apply fold_nearer_keeps|].
    apply H1, fold_nearer_elem.
Qed.

Lemma rank_sample_twins :
  rank P [twin_a; twin_b] true origin
  = ([ranked_twin_a; ranked_twin_b], Returned (Some ranked_twin_b)).
Proof. reflexivity. Qed.

End RankFacts.

(** * The claims on the ranking *)

Section RankClaims.
Local Open Scope float_scope.

(** C3: for every marker list and observer state, the list given to
    [setDistances] has the length of the marker list, and its element at
    each index is the annotated marker of that index: the input order is
    kept, nothing is sorted by distance. *)
Theorem rank_keeps_length_and_order (P : Platform) (markers : list object)
    (enabled : bool) (position : float * float) :
  length (rank P markers enabled position).1 = length markers /\
  forall i : nat,
    (rank P markers enabled position).1 !! i
    = annotate P enabled position <$> markers !! i.
Proof.
  simpl. split; [apply length_fmap|]. intros i. apply list_lookup_fmap.
Qed.

(** C5: with the observer disabled, every element of the ranked list has
    distance 0 and the nearest marker is [null]. *)
Theorem rank_disabled (P : Platform) (markers : list object)
    (position : float * float) :
  Forall (fun r => r !! "distance" = Some (VNum 0) /\ distance r = 0)
    (rank P markers false position).1 /\
  (rank P markers false position).2 = Returned None.
Proof.
  simpl. split; [|done]. apply Forall_fmap, Forall_forall. intros m _. simpl.
  by rewrite distance_annotate, annotate_distance.
Qed.

(** C2 (the code departs from the claim): with the observer enabled and
    no marker, [reduce] is called on the empty list without an initial
    value and throws a [TypeError]; no nearest marker, not even [null],
    is set. *)
Theorem rank_empty_enabled_throws (P : Platform) (position : float * float) :
  rank P [] true position = ([], Thrown TypeError).
Proof. reflexivity. Qed.

Lemma rank_empty_disabled (P : Platform) (position : float * float) :
  rank P [] false position = ([], Returned None).
Proof. reflexivity. Qed.

(** C10: with the observer enabled and at least one marker, the
    reduction does not reach its error branch: a nearest marker is
    returned. *)
Theorem rank_nonempty_returns (P : Platform) (markers : list object)
    (position : float * float) :
  markers <> [] ->
  exists r, (rank P markers true position).2 = Returned (Some r).
Proof.
  intros H. destruct markers as [|m markers]; [done|].
  simpl. eauto.
Qed.

Lemma rank_nonempty_returns_witness :
  exists r, (rank sample_platform [twin_a; twin_b] true origin).2
            = Returned (Some r).
Proof. apply rank_nonempty_returns. discriminate. Defined.

(** C4 (as stated, refuted): for the observer at (-12, -180), the marker
    at the antipode (12, 0) gets the distance NaN on an engine with
    correctly rounded sine and cosine ([a] rounds to [1 + 2^-52], and
    [1 - a] has no square root).  It replaces the accumulator and is
    returned as nearest, though NaN is not less than or equal to the
    distance 0 of the marker at the observer's place. *)
Lemma nearest_not_minimal_antipodal :
  rank rounding_engine [at_far_west; antipode] true far_west
  = ([ranked_at_far_west; ranked_antipode], Returned (Some ranked_antipode)) /\
  (distance ranked_antipode <=? distance ranked_at_far_west) = false.
Proof. split; reflexivity. Qed.

(** C4 (amended): for every non-empty marker list and enabled observer,
    the nearest marker is an element of the ranked list, and when no
    distance of the list is NaN its distance is less than or equal to the
    distance of every element. *)
Theorem nearest_in_ranked_and_minimal (P : Platform) (markers : list object)
    (position : float * float) :
  markers <> [] ->
  exists r,
    (rank P markers true position).2 = Returned (Some r) /\
    r ∈ (rank P markers true position).1 /\
    ((forall y, y ∈ (rank P markers true position).1 ->
                is_nan (distance y) = false) ->
     forall y, y ∈ (rank P markers true position).1 ->
               (distance r <=? distance y) = true).
Proof.
  intros H. destruct markers as [|m markers]; [done|]. simpl.
  eexists. split; [done|]. split; [apply fold_nearer_elem|].
  apply fold_nearer_minimal.
Qed.

Lemma nearest_in_ranked_and_minimal_witness :
  exists r,
    (rank sample_platform [twin_a; twin_b] true origin).2 = Returned (Some r) /\
    r ∈ (rank sample_platform [twin_a; twin_b] true origin).1 /\
    forall y, y ∈ (rank sample_platform [twin_a; twin_b] true origin).1 ->
              (distance r <=? distance y) = true.
Proof.
  destruct (nearest_in_ranked_and_minimal sample_platform [twin_a; twin_b] origin)
    as (r & Hr & Hin & Hmin); [discriminate|].
  exists r. split; [exact Hr|]. split; [exact Hin|].
  apply Hmin. intros y Hy.
  apply elem_of_cons in Hy as [->|Hy]; [reflexivity|].
  apply list_elem_of_singleton in Hy as ->. reflexivity.
Defined.

(** C1 (as stated, refuted): two markers at the observer's place are both
    at distance 0; the ranked list keeps them in input order and the
    nearest marker is the second one, not the first. *)
Lemma first_of_tie_is_not_nearest :
  ranked_twin_a <> ranked_twin_b /\
  distance ranked_twin_a = 0 /\ distance ranked_twin_b = 0 /\
  forall P, rank P [twin_a; twin_b] true origin
            = ([ranked_twin_a; ranked_twin_b], Returned (Some ranked_twin_b)).
Proof.
  split; [|split; [reflexivity|split; [reflexivity|apply rank_sample_twins]]].
  intros E.
  apply (f_equal (fun o : object =>
                    match o !! "id" with
                    | Some (VNum n) => n =? 1
                    | _ => false
                    end)) in E.
  vm_compute in E. discriminate E.
Qed.

(** C1 (amended): provided no distance in the ranked list is NaN, when
    several elements tie for the minimal distance, the nearest marker is
    the one of them that appears last in input order: an element [r]
    such that no element of the list has a smaller distance, and no
    element after it has a distance equal to its own, is the one
    returned (the reduction keeps the accumulator only on strict
    less-than). *)
Theorem nearest_is_last_minimum (P : Platform) (markers : list object)
    (position : float * float) (before : list object) (r : object)
    (after : list object) :
  (rank P markers true position).1 = before ++ r :: after ->
  (forall y, y ∈ before ++ r :: after -> is_nan (distance y) = false) ->
  (forall y, y ∈ before ++ r :: after ->
     (distance y <? distance r) = false) ->
  (forall y, y ∈ after -> (distance y =? distance r) = false) ->
  (rank P markers true position).2 = Returned (Some r).
Proof.
  simpl. intros -> Hnan Hmin Hlast.
  assert (forall y, y ∈ before ++ r :: after ->
            (distance r <=? distance y) = true) as Hle.
  { intros y Hy. apply ltb_false_leb; [by apply Hnan| |by apply Hmin].
    apply Hnan, elem_of_app. right. apply list_elem_of_here. }
  rewrite reduce_nearer_last_minimum; [done| |].
  - intros y Hy. apply Hle, elem_of_app. by left.
  - intros y Hy. apply leb_neq_ltb; [|by apply Hlast].
    apply Hle, elem_of_app. right. by apply list_elem_of_further.
Qed.

Lemma nearest_is_last_minimum_witness :
  (rank sample_platform [twin_a; twin_b; cyber 7 "G" 1 1] true origin).2
  = Returned (Some ranked_twin_b).
Proof.
  apply (nearest_is_last_minimum sample_platform
           [twin_a; twin_b; cyber 7 "G" 1 1] origin
           [ranked_twin_a] ranked_twin_b
           [annotate sample_platform true origin (cyber 7 "G" 1 1)]).
  - reflexivity.
  - intros y Hy.
    apply elem_of_app in Hy as [->%list_elem_of_singleton|Hy]; [reflexivity|].
    apply elem_of_cons in Hy as [-> | ->%list_elem_of_singleton]; reflexivity.
  - intros y Hy.
    apply elem_of_app in Hy as [->%list_elem_of_singleton|Hy]; [reflexivity|].
    apply elem_of_cons in Hy as [-> | ->%list_elem_of_singleton]; reflexivity.
  - intros y ->%list_elem_of_singleton. reflexivity.
Defined.

(** C9 (as stated, refuted): a marker whose data has a property named
    [distance] does not keep it: the annotation replaces it. *)
Lemma annotate_replaces_distance_field :
  walker !! "distance" = Some (VStr "far") /\
  forall P, exists r,
    (rank P [walker] false origin).1 !! 0%nat = Some r /\
    r !! "distance" = Some (VNum 0).
Proof.
  split; [reflexivity|]. intros P. eexists. split; reflexivity.
Qed.

(** C9 (amended): every ranked element carries each property of its
    marker unmodified, except the properties named [geocode] and
    [distance], which are set: [geocode] to the pair of the marker's
    latitude and longitude, [distance] to the computed number. *)
Theorem ranked_keeps_other_fields (P : Platform) (markers : list object)
    (enabled : bool) (position : float * float) (i : nat) (m : object) :
  markers !! i = Some m ->
  exists r,
    (rank P markers enabled position).1 !! i = Some r /\
    (forall k, k <> "geocode" -> k <> "distance" -> r !! k = m !! k) /\
    r !! "geocode" = Some (VArr [prop m "latitude"; prop m "longitude"]) /\
    r !! "distance"
    = Some (VNum (if enabled
                  then haversineDistance (js_arith P) position
                         (ToNumber P (prop m "latitude"),
                          ToNumber P (prop m "longitude"))
                  else 0)).
Proof.
  intros Hm. exists (annotate P enabled position m). simpl.
  rewrite list_lookup_fmap, Hm. split; [done|].
  split; [intros k; apply annotate_other|].
  split; [apply annotate_geocode|apply annotate_distance].
Qed.

Lemma ranked_keeps_other_fields_witness :
  exists r,
    (rank sample_platform [twin_a; walker] false origin).1 !! 1%nat = Some r /\
    (forall k, k <> "geocode" -> k <> "distance" -> r !! k = walker !! k) /\
    r !! "geocode"
    = Some (VArr [prop walker "latitude"; prop walker "longitude"]) /\
    r !! "distance" = Some (VNum 0).
Proof.
  apply (ranked_keeps_other_fields sample_platform [twin_a; walker] false origin
           1 walker).
  reflexivity.
Defined.
End RankClaims.

(** * The claims on [haversineDistance] *)

Section DistanceFacts.
Context (P : Platform).

Local Open Scope float_scope.

Lemma is_nan_opp x : is_nan (- x) = is_nan x.
Proof. rewrite !is_nan_spec, opp_spec. by destruct (Prim2SF x). Qed.

Lemma is_zero_opp x : is_zero (- x) = is_zero x.
Proof. rewrite !is_zero_spec, opp_spec. by destruct (Prim2SF x). Qed.

Lemma is_infinity_opp x : is_infinity (- x) = is_infinity x.
Proof. rewrite !is_infinity_spec, opp_spec. by destruct (Prim2SF x). Qed.

Lemma toRad_float x : toRad (js_arith P) x = x * 0x1.921fb54442d18p+1 / 180.
Proof. reflexivity. Qed.

Lemma toRad_opp x : toRad (js_arith P) (- x) = - toRad (js_arith P) x.
Proof. by rewrite !toRad_float, mul_opp_l, div_opp_l. Qed.

Lemma js_sin_opp x : odd_sine P -> js_sin P (- x) = - js_sin P x.
Proof.
  intros Hodd. unfold js_sin.
  rewrite is_nan_opp, is_zero_opp, is_infinity_opp.
  destruct (is_nan x) eqn:Hnan; [done|].
  destruct (is_zero x); [done|]. simpl.
  destruct (is_infinity x) eqn:Hinf; [done|].
  apply Hodd. unfold is_finite. by rewrite Hnan, Hinf.
Qed.

(** The two squared half-angle sines do not see the sign of the
    difference. *)
Lemma half_sine_sq_opp d :
  odd_sine P ->
  js_sin P (toRad (js_arith P) (- d) / 2) * js_sin P (toRad (js_arith P) (- d) / 2)
  = js_sin P (toRad (js_arith P) d / 2) * js_sin P (toRad (js_arith P) d / 2).
Proof.
  intros Hodd.
  by rewrite toRad_opp, div_opp_l, js_sin_opp, mul_opp_l, mul_opp_r,
    opp_involutive.
Qed.

Lemma weighted_half_sine_sq_opp w d :
  odd_sine P ->
  w * js_sin P (toRad (js_arith P) (- d) / 2) * js_sin P (toRad (js_arith P) (- d) / 2)
  = w * js_sin P (toRad (js_arith P) d / 2) * js_sin P (toRad (js_arith P) d / 2).
Proof.
  intros Hodd.
  by rewrite toRad_opp, div_opp_l, js_sin_opp, !mul_opp_r, mul_opp_l,
    opp_involutive.
Qed.

Lemma haversineDistance_float lat1 lon1 lat2 lon2 :
  haversineDistance (js_arith P) (lat1, lon1) (lat2, lon2)
  = let a :=
      js_sin P (toRad (js_arith P) (lat2 - lat1) / 2)
      * js_sin P (toRad (js_arith P) (lat2 - lat1) / 2)
      + js_cos P (toRad (js_arith P) lat1) * js_cos P (toRad (js_arith P) lat2)
        * js_sin P (toRad (js_arith P) (lon2 - lon1) / 2)
        * js_sin P (toRad (js_arith P) (lon2 - lon1) / 2) in
    6371 * (2 * js_atan2 P (PrimFloat.sqrt a) (PrimFloat.sqrt (1 - a))).
Proof. reflexivity. Qed.

Lemma haversineDistance_swap lat1 lon1 lat2 lon2 :
  odd_sine P ->
  haversineDistance (js_arith P) (lat1, lon1) (lat2, lon2)
  = haversineDistance (js_arith P) (lat2, lon2) (lat1, lon1).
Proof.
  intros Hodd. rewrite !haversineDistance_float.
  rewrite (mul_comm (js_cos P (toRad (js_arith P) lat2))
                    (js_cos P (toRad (js_arith P) lat1))).
  destruct (sub_swap lat2 lat1) as [->| ->], (sub_swap lon2 lon1) as [->| ->];
    by rewrite ?half_sine_sq_opp, ?weighted_half_sine_sq_opp.
Qed.

(** Towards the distance of a point to itself. *)

Lemma exponent_le_finite x B :
  exponent_le B (Prim2SF x) -> is_finite x = true.
Proof.
  unfold is_finite. rewrite is_nan_spec, is_infinity_spec.
  by destruct (Prim2SF x).
Qed.

Lemma sub_diag x : is_finite x = true -> x - x = 0.
Proof.
  unfold is_finite. rewrite is_nan_spec, is_infinity_spec. intros H.
  apply Prim2SF_inj. rewrite sub_spec.
  change (Prim2SF 0) with (S754_zero false).
  destruct (Prim2SF x) as [s|s| |s m e]; try done; [by destruct s|].
  unfold SF64sub. simpl. by rewrite Z.sub_diag.
Qed.

Lemma abs_le_exponent x c m e :
  Prim2SF c = S754_finite false m e ->
  (PrimFloat.abs x <=? c) = true -> exponent_le e (Prim2SF x).
Proof.
  intros Hc. rewrite leb_spec, abs_spec, Hc. unfold SFleb.
  destruct (Prim2SF x) as [s|s| |s mx ex]; simpl; try done.
  destruct (Z.compare_spec ex e); try done; lia.
Qed.

Lemma toRad_bounds x :
  exponent_le (-46) (Prim2SF x) ->
  exponent_le 480 (Prim2SF (toRad (js_arith P) x)).
Proof.
  intros Hx. rewrite toRad_float, div_spec, mul_spec.
  change (Prim2SF 180) with (S754_finite false 6333186975989760 (-45)).
  apply (SFdiv_bounds _ false 6333186975989760 (-45) 116);
    [|done| |by vm_compute].
  - generalize (Prim2SF_valid (x * 0x1.921fb54442d18p+1)).
    by rewrite mul_spec.
  - apply (SFmul_bounds _ _ (-46) (-51));
      [apply Prim2SF_valid|apply Prim2SF_valid|done|by vm_compute
      |by vm_compute].
Qed.

Lemma js_cos_bounds t B :
  bounded_cosine P -> exponent_le B (Prim2SF t) ->
  exponent_le (-52) (Prim2SF (js_cos P t)).
Proof.
  intros Hcos Ht. unfold js_cos.
  pose proof (exponent_le_finite _ _ Ht) as Hfin.
  rewrite is_nan_spec, is_infinity_spec.
  destruct (Prim2SF t) as [s|s| |s m e] eqn:E; try done; simpl;
    (destruct (is_zero t); [by vm_compute|]);
    by apply (abs_le_exponent _ 1 4503599627370496 (-52)), Hcos.
Qed.

Lemma mul_self_zero c :
  exponent_le (-52) (Prim2SF c) -> c * c * 0 = 0.
Proof.
  intros H. apply Prim2SF_inj. rewrite !mul_spec.
  apply SFmul_self_zero; [apply Prim2SF_valid|done].
Qed.
End DistanceFacts.

Section DistanceClaims.
Local Open Scope float_scope.

(** C7: the distance is symmetric in its two arguments: for every pair
    of coordinates, [haversineDistance a b] and [haversineDistance b a]
    are the same number (the same NaN when the result is NaN), on an
    engine whose sine approximation is odd. *)
Theorem haversineDistance_sym (P : Platform) (a b : float * float) :
  odd_sine P ->
  haversineDistance (js_arith P) a b = haversineDistance (js_arith P) b a.
Proof.
  intros Hodd. destruct a as [lat1 lon1], b as [lat2 lon2].
  by apply haversineDistance_swap.
Qed.

(** With JavaScript's [==], which no NaN satisfies: the two distances
    compare equal whenever the distance is a number. *)
Lemma haversineDistance_sym_eqb (P : Platform) (a b : float * float) :
  odd_sine P ->
  is_nan (haversineDistance (js_arith P) a b) = false ->
  (haversineDistance (js_arith P) a b =? haversineDistance (js_arith P) b a)
  = true.
Proof.
  intros Hodd Hnan. destruct a as [lat1 lon1], b as [lat2 lon2].
  rewrite <- (haversineDistance_swap P lat1 lon1 lat2 lon2 Hodd).
  unfold is_nan in Hnan. by apply negb_false_iff in Hnan.
Qed.

(** C8: the distance of a coordinate to itself is exactly zero, for
    every latitude in [-90, 90] and longitude in [-180, 180], on an
    engine whose cosine approximation stays within [-1, 1]. *)
Theorem haversineDistance_self (P : Platform) (lat lon : float) :
  bounded_cosine P ->
  (PrimFloat.abs lat <=? 90) = true ->
  (PrimFloat.abs lon <=? 180) = true ->
  haversineDistance (js_arith P) (lat, lon) (lat, lon) = 0.
Proof.
  intros Hcos Hlat Hlon.
  apply (abs_le_exponent _ 90 6333186975989760 (-46)) in Hlat; [|done].
  apply (abs_le_exponent _ 180 6333186975989760 (-45)) in Hlon; [|done].
  rewrite haversineDistance_float.
  rewrite !sub_diag by eauto using exponent_le_finite.
  change (js_sin P (toRad (js_arith P) 0 / 2)) with 0.
  rewrite mul_self_zero; [reflexivity|].
  eapply js_cos_bounds, toRad_bounds; done.
Qed.

(** Outside the data model the distance to itself is not zero: an
    infinite latitude gives NaN on every engine. *)
Remark haversineDistance_self_infinite (P : Platform) :
  haversineDistance (js_arith P) (infinity, 0) (infinity, 0) = nan.
Proof. reflexivity. Qed.

(** Inside the data model the distance can be NaN as well.  For the
    antipodal pair (-12, -180) and (12, 0), an engine that returns the
    correctly rounded sine and cosine of the three arguments used gets
    [a = 1 + 2^-52], and the square root of [1 - a] is NaN. *)
Remark haversineDistance_antipodal_nan (P : Platform) :
  sin_approx P 0x1.acee9f37bebd5p-3 = 0x1.a9cd9ac4258f5p-3 ->
  sin_approx P 0x1.921fb54442d18p+0 = 1 ->
  cos_approx P 0x1.acee9f37bebd5p-3 = 0x1.f4cfc327a0080p-1 ->
  cos_approx P (-0x1.acee9f37bebd5p-3) = 0x1.f4cfc327a0080p-1 ->
  haversineDistance (js_arith P) (-12, -180) (12, 0) = nan.
Proof.
  intros Hs1 Hs2 Hc1 Hc2. rewrite haversineDistance_float.
  change (toRad (js_arith P) (12 - -12) / 2) with 0x1.acee9f37bebd5p-3.
  change (toRad (js_arith P) (0 - -180) / 2) with 0x1.921fb54442d18p+0.
  change (toRad (js_arith P) 12) with 0x1.acee9f37bebd5p-3.
  change (toRad (js_arith P) (-12)) with (-0x1.acee9f37bebd5p-3).
  change (js_sin P 0x1.acee9f37bebd5p-3) with (sin_approx P 0x1.acee9f37bebd5p-3).
  change (js_sin P 0x1.921fb54442d18p+0) with (sin_approx P 0x1.921fb54442d18p+0).
  change (js_cos P 0x1.acee9f37bebd5p-3) with (cos_approx P 0x1.acee9f37bebd5p-3).
  change (js_cos P (-0x1.acee9f37bebd5p-3))
    with (cos_approx P (-0x1.acee9f37bebd5p-3)).
  rewrite Hs1, Hs2, Hc1, Hc2. reflexivity.
Qed.

Lemma haversineDistance_self_witness :
  haversineDistance (js_arith sample_platform) (48.5, 2.25) (48.5, 2.25) = 0.
Proof.
  apply haversineDistance_self; [intros x _|..]; reflexivity.
Defined.

Lemma haversineDistance_sym_witness :
  haversineDistance (js_arith sample_platform) (48.5, 2.25) (0, 90)
  = haversineDistance (js_arith sample_platform) (0, 90) (48.5, 2.25).
Proof.
  apply haversineDistance_sym. intros x _. reflexivity.
Defined.
End DistanceClaims.

Section ExactDistance.
Local Open Scope R_scope.





(** In exact arithmetic the distance of a point to itself is zero. *)
Remark great_circle_km_self (p : R * R) : great_circle_km p p = 0.
Proof.
  unfold great_circle_km, haversine_term. cbn zeta.
  rewrite !Rminus_diag. replace (0 / 2) with 0 by field.
  rewrite sin_0, Rsqr_0, Rmult_0_r, Rplus_0_r, Rminus_0_r, sqrt_0, sqrt_1.
  unfold Ratan2. destruct (Rlt_dec 0 1) as [_|H]; [|lra].
  replace (0 / 1) with 0 by field. rewrite atan_0. ring.
Qed.

Lemma sin_half_sq d : (sin (d / 2))² = (1 - cos d) / 2.
Proof.
  replace d with (2 * (d / 2)) at 2 by field.
  rewrite cos_2a_sin. unfold Rsqr. field.
Qed.

(** The term [a] is the haversine of the central angle between the two
    points: [1 - 2a] is the cosine of that angle, the inner product of the
    two unit vectors. *)
Remark haversine_term_cosine (p q : R * R) :
  1 - 2 * haversine_term p q
  = sin (radians (fst p)) * sin (radians (fst q))
    + cos (radians (fst p)) * cos (radians (fst q))
      * cos (radians (snd q) - radians (snd p)).
Proof.
  unfold haversine_term. cbn zeta. rewrite !sin_half_sq, cos_minus. field.
Qed.

(** So [a] lies in [0, 1], and both square roots are of non-negative
    numbers. *)
Remark haversine_term_range (p q : R * R) : 0 <= haversine_term p q <= 1.
Proof.
  pose proof (haversine_term_cosine p q) as H.
  set (a := haversine_term p q) in *.
  pose proof (COS_bound (radians (snd q) - radians (snd p))) as [Hc1 Hc2].
  pose proof (sin2_cos2 (radians (fst p))) as H1.
  pose proof (sin2_cos2 (radians (fst q))) as H2.
  unfold Rsqr in H1, H2.
  set (s1 := sin (radians (fst p))) in *.
  set (s2 := sin (radians (fst q))) in *.
  set (c1 := cos (radians (fst p))) in *.
  set (c2 := cos (radians (fst q))) in *.
  set (c := cos (radians (snd q) - radians (snd p))) in *.
  assert (- (s1 * s1 + s2 * s2) <= 2 * (s1 * s2) <= s1 * s1 + s2 * s2) as Hs
    by (pose proof (Rle_0_sqr (s1 - s2)); pose proof (Rle_0_sqr (s1 + s2));
        unfold Rsqr in *; lra).
  assert (- (c1 * c1 + c2 * c2) <= 2 * (c1 * c2) <= c1 * c1 + c2 * c2) as Hc
    by (pose proof (Rle_0_sqr (c1 - c2)); pose proof (Rle_0_sqr (c1 + c2));
        unfold Rsqr in *; lra).
  set (w := c1 * c2) in *.
  assert (- Rabs w <= w * c <= Rabs w) as Hwc.
  { clear - Hc1 Hc2. unfold Rabs. destruct (Rcase_abs w) as [Hw|Hw].
    - pose proof (Rmult_le_pos (- w) (1 - c) ltac:(lra) ltac:(lra)).
      pose proof (Rmult_le_pos (- w) (1 + c) ltac:(lra) ltac:(lra)).
      split; lra.
    - pose proof (Rmult_le_pos w (1 - c) ltac:(lra) ltac:(lra)).
      pose proof (Rmult_le_pos w (1 + c) ltac:(lra) ltac:(lra)).
      split; lra. }
  assert (2 * Rabs w <= c1 * c1 + c2 * c2) as Haw.
  { unfold Rabs. destruct (Rcase_abs w); lra. }
  split; lra.
Qed.
End ExactDistance.

(** * Further properties of [haversineDistance] *)

Section NonFinite.
Context (P : Platform).

Local Open Scope float_scope.

Lemma is_finite_spec x :
  is_finite x
  = match Prim2SF x with
    | S754_nan | S754_infinity _ => false
    | _ => true
    end.
Proof.
  unfold is_finite. rewrite is_nan_spec, is_infinity_spec.
  by destruct (Prim2SF x).
Qed.

Lemma is_nan_eq x : is_nan x = true -> x = nan.
Proof.
  rewrite is_nan_spec. intros H. apply Prim2SF_inj.
  change (Prim2SF nan) with S754_nan. by destruct (Prim2SF x).
Qed.

Lemma sub_nonfinite_r x y : is_finite x = false -> is_finite (y - x) = false.
Proof.
  rewrite !is_finite_spec, sub_spec.
  destruct (Prim2SF x) as [sx|sx| |sx mx ex], (Prim2SF y) as [sy|sy| |sy my ey];
    try done; simpl; by destruct sx, sy.
Qed.

Lemma sub_nonfinite_l x y : is_finite x = false -> is_finite (x - y) = false.
Proof.
  rewrite !is_finite_spec, sub_spec.
  destruct (Prim2SF x) as [sx|sx| |sx mx ex], (Prim2SF y) as [sy|sy| |sy my ey];
    try done; simpl; by destruct sx, sy.
Qed.

Lemma mul_nonfinite x c s m e :
  Prim2SF c = S754_finite s m e ->
  is_finite x = false -> is_finite (x * c) = false.
Proof.
  intros Hc. rewrite !is_finite_spec, mul_spec, Hc.
  by destruct (Prim2SF x).
Qed.

Lemma div_nonfinite x c s m e :
  Prim2SF c = S754_finite s m e ->
  is_finite x = false -> is_finite (x / c) = false.
Proof.
  intros Hc. rewrite !is_finite_spec, div_spec, Hc.
  by destruct (Prim2SF x).
Qed.

Lemma half_toRad_nonfinite x :
  is_finite x = false -> is_finite (toRad (js_arith P) x / 2) = false.
Proof.
  intros H. rewrite toRad_float.
  apply (div_nonfinite _ 2 false 4503599627370496 (-51)); [done|].
  apply (div_nonfinite _ 180 false 6333186975989760 (-45)); [done|].
  by apply (mul_nonfinite _ _ false 7074237752028440 (-51)).
Qed.

Lemma js_sin_nonfinite x : is_finite x = false -> js_sin P x = nan.
Proof.
  unfold is_finite, js_sin. intros H%negb_false_iff.
  destruct (is_nan x) eqn:Hnan; simpl in *; [by apply is_nan_eq|].
  rewrite H. rewrite is_zero_spec. rewrite is_infinity_spec in H.
  by destruct (Prim2SF x).
Qed.

Lemma mul_nan_l x : nan * x = nan.
Proof. apply Prim2SF_inj. by rewrite mul_spec. Qed.

Lemma mul_nan_r x : x * nan = nan.
Proof. by rewrite mul_comm, mul_nan_l. Qed.

Lemma add_nan_l x : nan + x = nan.
Proof. apply Prim2SF_inj. by rewrite add_spec. Qed.

Lemma add_nan_r x : x + nan = nan.
Proof.
  apply Prim2SF_inj. rewrite add_spec.
  change (Prim2SF nan) with S754_nan. by destruct (Prim2SF x).
Qed.

Lemma haversineDistance_nan lat1 lon1 lat2 lon2 :
  is_finite (lat2 - lat1) = false \/ is_finite (lon2 - lon1) = false ->
  haversineDistance (js_arith P) (lat1, lon1) (lat2, lon2) = nan.
Proof.
  intros H. rewrite haversineDistance_float. cbv zeta.
  assert (js_sin P (toRad (js_arith P) (lat2 - lat1) / 2)
          * js_sin P (toRad (js_arith P) (lat2 - lat1) / 2)
          + js_cos P (toRad (js_arith P) lat1) * js_cos P (toRad (js_arith P) lat2)
            * js_sin P (toRad (js_arith P) (lon2 - lon1) / 2)
            * js_sin P (toRad (js_arith P) (lon2 - lon1) / 2) = nan) as ->.
  { destruct H as [H|H];
      rewrite (js_sin_nonfinite _ (half_toRad_nonfinite _ H)).
    - by rewrite mul_nan_l, add_nan_l.
    - by rewrite !mul_nan_r, add_nan_r. }
  reflexivity.
Qed.
End NonFinite.

Section DistanceEdges.
Local Open Scope float_scope.

(** X1: a coordinate with a NaN or infinite component makes the distance
    NaN, on every engine and whatever the other coordinate is. *)
Theorem haversineDistance_nonfinite (P : Platform) (a b : float * float) :
  is_finite a.1 = false \/ is_finite a.2 = false \/
  is_finite b.1 = false \/ is_finite b.2 = false ->
  haversineDistance (js_arith P) a b = nan.
Proof.
  destruct a as [lat1 lon1], b as [lat2 lon2]. simpl.
  intros [H|[H|[H|H]]]; apply haversineDistance_nan;
    auto using sub_nonfinite_l, sub_nonfinite_r.
Qed.

Lemma haversineDistance_nonfinite_witness :
  haversineDistance (js_arith sample_platform) (48.5, infinity) (0, 90) = nan.
Proof.
  apply haversineDistance_nonfinite. right. left. reflexivity.
Defined.

(** X3: the conversion to radians commutes with negation exactly, NaN
    and infinities included. *)
Theorem toRad_odd (P : Platform) (x : float) :
  toRad (js_arith P) (- x) = - toRad (js_arith P) x.
Proof. by rewrite !toRad_float, mul_opp_l, div_opp_l. Qed.

(** X4: the conversion to radians does not overflow: for every [x] with
    [|x| <= 2^400], in particular for every latitude and longitude in
    degrees, [toRad x] is finite. *)
Theorem toRad_finite (P : Platform) (x : float) :
  (PrimFloat.abs x <=? 0x1p+400) = true ->
  is_finite (toRad (js_arith P) x) = true.
Proof.
  intros Hx.
  apply (abs_le_exponent _ _ 4503599627370496 348) in Hx; [|done].
  eapply exponent_le_finite. rewrite toRad_float, div_spec, mul_spec.
  change (Prim2SF 180) with (S754_finite false 6333186975989760 (-45)).
  apply (SFdiv_bounds _ false 6333186975989760 (-45) 510);
    [|done| |by vm_compute].
  - generalize (Prim2SF_valid (x * 0x1.921fb54442d18p+1)).
    by rewrite mul_spec.
  - apply (SFmul_bounds _ _ 348 (-51));
      [apply Prim2SF_valid|apply Prim2SF_valid|done|by vm_compute
      |by vm_compute].
Qed.

Lemma toRad_finite_witness :
  is_finite (toRad (js_arith sample_platform) (-180)) = true.
Proof. apply toRad_finite. reflexivity. Defined.
End DistanceEdges.

(** * Further properties of the ranking *)

Section NearestFacts.
Local Open Scope float_scope.

Lemma ltb_not_nan x y :
  (x <? y) = true -> is_nan x = false /\ is_nan y = false.
Proof.
  rewrite !is_nan_spec, ltb_spec. unfold SFltb.
  destruct (Prim2SF x) as [sx|sx| |sx mx ex], (Prim2SF y) as [sy|sy| |sy my ey];
    try done; by destruct sx.
Qed.



Lemma nearer_nan (prev curr : object) :
  is_nan (distance (nearer prev curr)) = is_nan (distance curr).
Proof.
  unfold nearer. destruct (distance prev <? distance curr) eqn:E; [|done].
  apply ltb_not_nan in E as [-> ->]. done.
Qed.

Lemma fold_nearer_nan (l : list object) (prev last : object) :
  is_nan (distance (fold_left nearer (l ++ [last]) prev))
  = is_nan (distance last).
Proof. rewrite fold_left_app. simpl. apply nearer_nan. Qed.

Lemma reduce_nearer_nan (l : list object) (last : object) :
  exists r, reduce nearer (l ++ [last]) = Returned r /\
            is_nan (distance r) = is_nan (distance last).
Proof.
  destruct l as [|x l]; simpl; eexists; (split; [reflexivity|]); [done|].
  apply fold_nearer_nan.
Qed.



(** The fold's result splits the list: nothing before it is nearer,
    everything after it is strictly farther. *)
Lemma fold_nearer_split (l : list object) (prev : object) :
  (forall y, y ∈ prev :: l -> is_nan (distance y) = false) ->
  exists before after,
    prev :: l = before ++ fold_left nearer l prev :: after /\
    (forall y, y ∈ before ->
       (distance (fold_left nearer l prev) <=? distance y) = true) /\
    (forall y, y ∈ after ->
       (distance (fold_left nearer l prev) <? distance y) = true).
Proof.
  induction l as [|z l IH] using rev_ind; intros Hn.
  - exists [], []. simpl. split; [done|].
    split; intros y Hy; by apply not_elem_of_nil in Hy.
  - destruct IH as (before & after & Hsplit & Hb & Ha).
    { intros y Hy. apply Hn. rewrite app_comm_cons. apply elem_of_app. by left. }
    rewrite fold_left_app. simpl. set (r := fold_left nearer l prev) in *.
    unfold nearer. destruct (distance r <? distance z) eqn:E.
    + exists before, (after ++ [z]). split.
      { rewrite app_comm_cons, Hsplit, <- app_assoc. done. }
      split; [done|]. intros y [Hy|Hy]%elem_of_app; [by apply Ha|].
      by apply list_elem_of_singleton in Hy as ->.
    + exists (prev :: l), []. split; [by rewrite app_comm_cons|].
      split; [|intros y Hy; by apply not_elem_of_nil in Hy].
      assert (is_nan (distance z) = false) as Hz.
      { apply Hn. rewrite app_comm_cons. apply elem_of_app. right.
        apply list_elem_of_here. }
      assert (forall y, y ∈ prev :: l -> is_nan (distance y) = false) as Hn'.
      { intros y Hy. apply Hn. rewrite app_comm_cons. apply elem_of_app.
        by left. }
      assert ((distance z <=? distance r) = true) as Hzr.
      { apply ltb_false_leb; [|done..]. apply Hn'. rewrite Hsplit.
        apply elem_of_app. right. apply list_elem_of_here. }
      intros y Hy. eapply leb_trans; [exact Hzr|].
      rewrite Hsplit in Hy. apply elem_of_app in Hy as [Hy|Hy]; [by apply Hb|].
      apply elem_of_cons in Hy as [->|Hy].
      * apply leb_refl, Hn'. rewrite Hsplit. apply elem_of_app. right.
        apply list_elem_of_here.
      * by apply ltb_leb, Ha.
Qed.
End NearestFacts.

Section NearestEdges.
Local Open Scope float_scope.

(** X7: the effect throws exactly when the observer is enabled and there
    is no marker; in every other case it completes. *)
Theorem rank_throws_iff (P : Platform) (markers : list object)
    (enabled : bool) (position : float * float) :
  (exists e, (rank P markers enabled position).2 = Thrown e)
  <-> enabled = true /\ markers = [].
Proof.
  split.
  - intros [e He]. destruct enabled; [|done].
    destruct markers as [|m markers]; [done|]. done.
  - intros [-> ->]. by exists TypeError.
Qed.

(** X8: with the observer enabled, the nearest marker has a NaN distance
    exactly when the last marker of the list has one: whether the other
    markers have usable coordinates does not matter. *)
Theorem nearest_nan_iff_last_nan (P : Platform) (markers : list object)
    (last : object) (position : float * float) :
  exists r,
    (rank P (markers ++ [last]) true position).2 = Returned (Some r) /\
    is_nan (distance r) = is_nan (distance (annotate P true position last)).
Proof.
  simpl. rewrite fmap_app. simpl.
  destruct (reduce_nearer_nan (annotate P true position <$> markers)
              (annotate P true position last)) as (r & -> & Hr).
  by exists r.
Qed.



(** X10: with the observer enabled, at least one marker and no NaN among
    the distances, the nearest marker sits at a place of the ranked list
    where no element before it is nearer and every element after it is
    strictly farther. *)
Theorem nearest_splits_ranked (P : Platform) (markers : list object)
    (position : float * float) :
  markers <> [] ->
  (forall y, y ∈ (rank P markers true position).1 ->
             is_nan (distance y) = false) ->
  exists before r after,
    (rank P markers true position).1 = before ++ r :: after /\
    (rank P markers true position).2 = Returned (Some r) /\
    (forall y, y ∈ before -> (distance r <=? distance y) = true) /\
    (forall y, y ∈ after -> (distance r <? distance y) = true).
Proof.
  intros Hne Hn. destruct markers as [|m markers]; [done|]. simpl in *.
  destruct (fold_nearer_split _ _ Hn) as (before & after & Hsplit & Hb & Ha).
  eexists before, _, after. split; [exact Hsplit|]. by split.
Qed.

Lemma nearest_splits_ranked_witness :
  exists before r after,
    (rank sample_platform [twin_a; twin_b] true origin).1
    = before ++ r :: after /\
    (rank sample_platform [twin_a; twin_b] true origin).2
    = Returned (Some r) /\
    (forall y, y ∈ before -> (distance r <=? distance y) = true) /\
    (forall y, y ∈ after -> (distance r <? distance y) = true).
Proof.
  apply nearest_splits_ranked; [discriminate|].
  intros y Hy. apply elem_of_cons in Hy as [->|Hy]; [reflexivity|].
  apply list_elem_of_singleton in Hy as ->. reflexivity.
Defined.
End NearestEdges.

(** * Properties of the component [App] *)

Section AppFacts.
Context (P : Platform).

Lemma effect_returned (s s' : App.State) :
  App.effect P s = Returned s' ->
  App.consistent P s' /\
  App.position s' = App.position s /\
  App.locationEnabled s' = App.locationEnabled s /\
  App.markers s' = App.markers s /\
  App.zoomTarget s' = App.zoomTarget s.
Proof.
  unfold App.effect, App.consistent, rank. destruct s as [pos ds en zt nm ms].
  cbn [App.position App.distances App.locationEnabled App.zoomTarget
       App.nearestMarker App.markers].
  destruct en.
  - destruct ms as [|m ms]; [done|]. simpl. intros [= <-]. simpl.
    repeat split. apply fold_nearer_elem.
  - simpl. intros [= <-]. simpl. done.
Qed.

Lemma effect_thrown (s : App.State) (e : js_error) :
  App.effect P s = Thrown e <->
  App.locationEnabled s = true /\ App.markers s = [].
Proof.
  unfold App.effect, rank. destruct s as [pos ds en zt nm ms].
  cbn [App.position App.distances App.locationEnabled App.zoomTarget
       App.nearestMarker App.markers].
  destruct en, ms as [|m ms], e; simpl; split; try done; by intros [? ?].
Qed.

Lemma initial_consistent : App.consistent P App.initial.
Proof. by split. Qed.

Lemma handle_consistent (e : App.event) (s s' : App.State) :
  App.consistent P s -> App.handle P e s = Returned s' -> App.consistent P s'.
Proof.
  intros Hs. destruct e as [lat lng|data| |row]; simpl.
  - by intros [? _]%effect_returned.
  - by intros [? _]%effect_returned.
  - by intros [= <-].
  - destruct (App.distances s !! row); by intros [= <-].
Qed.

Lemma run_consistent (events : list App.event) (s s' : App.State) :
  App.consistent P s -> App.run P events s = Returned s' ->
  App.consistent P s'.
Proof.
  revert s. induction events as [|e events IH]; intros s Hs; simpl.
  - by intros [= <-].
  - destruct (App.handle P e s) as [s1|err] eqn:E; [|done]. simpl.
    apply IH. by eapply handle_consistent.
Qed.

Lemma run_app (events1 events2 : list App.event) (s : App.State) :
  App.run P (events1 ++ events2) s
  = bind (App.run P events1 s) (App.run P events2).
Proof.
  revert s. induction events1 as [|e events1 IH]; intros s; simpl; [done|].
  destruct (App.handle P e s) as [s1|err]; simpl; [apply IH|done].
Qed.

(** What one event leaves in the three inputs of the effect. *)
Lemma handle_inputs (e : App.event) (s s' : App.State) :
  App.handle P e s = Returned s' ->
  App.position s'
  = match e with
    | App.locationfound lat lng => (lat, lng)
    | _ => App.position s
    end /\
  App.locationEnabled s'
  = match e with
    | App.locationfound _ _ => true
    | _ => App.locationEnabled s
    end /\
  App.markers s'
  = match e with
    | App.fetched data => data
    | _ => App.markers s
    end.
Proof.
  destruct e as [lat lng|data| |row]; simpl.
  - by intros (_ & -> & -> & -> & _)%effect_returned.
  - by intros (_ & -> & -> & -> & _)%effect_returned.
  - by intros [= <-].
  - destruct (App.distances s !! row); by intros [= <-].
Qed.

Lemma run_inputs (events : list App.event) (s s' : App.State) :
  App.run P events s = Returned s' ->
  App.position s' = default (App.position s) (App.last_fix events) /\
  App.locationEnabled s'
  = match App.last_fix events with
    | Some _ => true
    | None => App.locationEnabled s
    end /\
  App.markers s' = default (App.markers s) (App.last_fetched events).
Proof.
  revert s. induction events as [|e events IH]; intros s; simpl.
  - by intros [= <-].
  - destruct (App.handle P e s) as [s1|err] eqn:E; [|done]. simpl.
    intros (Hp & Hl & Hm)%IH.
    apply handle_inputs in E as (Ep & El & Em).
    rewrite Hp, Hl, Hm, Ep, El, Em.
    destruct (App.last_fix events), (App.last_fetched events), e; done.
Qed.
End AppFacts.

Section AppClaims.
Local Open Scope float_scope.

(** X11: after any session that did not throw, the table is derived from
    the current state: its rows are the current markers, annotated for the
    current position and enabling flag; and a nearest marker is set
    exactly when the location is enabled, in which case it is one of the
    rows. *)
Theorem session_consistent (P : Platform) (events : list App.event)
    (s : App.State) :
  App.run P events App.initial = Returned s ->
  App.consistent P s /\ length (App.distances s) = length (App.markers s).
Proof.
  intros H. pose proof (run_consistent P _ _ _ (initial_consistent P) H) as Hc.
  split; [done|]. destruct Hc as [-> _]. apply length_fmap.
Qed.

Lemma session_consistent_witness :
  exists s,
    App.run sample_platform
      [App.fetched [twin_a; twin_b]; App.locationfound 0 0; App.zoom_clicked 1]
      App.initial = Returned s /\
    App.consistent sample_platform s /\
    length (App.distances s) = length (App.markers s).
Proof.
  eexists. split; [reflexivity|].
  apply (session_consistent sample_platform
           [App.fetched [twin_a; twin_b]; App.locationfound 0 0;
            App.zoom_clicked 1]).
  reflexivity.
Defined.

(** X13: after any session that did not throw, the position is that of
    the last location found (the initial one if there was none), the
    location is enabled exactly when a location was found, and the markers
    are those of the last fetch that resolved (none if there was none). *)
Theorem session_latest_inputs (P : Platform) (events : list App.event)
    (s : App.State) :
  App.run P events App.initial = Returned s ->
  App.position s = default (0, 0) (App.last_fix events) /\
  App.locationEnabled s
  = match App.last_fix events with Some _ => true | None => false end /\
  App.markers s = default [] (App.last_fetched events).
Proof. intros H. by apply run_inputs in H. Qed.

Lemma session_latest_inputs_witness :
  exists s,
    App.run sample_platform
      [App.fetched [twin_a]; App.locationfound 1 2; App.fetch_failed;
       App.fetched [twin_b; twin_a]]
      App.initial = Returned s /\
    App.position s = (1, 2) /\
    App.locationEnabled s = true /\
    App.markers s = [twin_b; twin_a].
Proof.
  eexists. split; [reflexivity|].
  apply (session_latest_inputs sample_platform
           [App.fetched [twin_a]; App.locationfound 1 2; App.fetch_failed;
            App.fetched [twin_b; twin_a]]).
  reflexivity.
Defined.

(** X14: in a state the component can be in, the Zoom button of a row
    sets the zoom target to the latitude and longitude of the marker the
    row was made from, which is also the row's [geocode]; nothing else
    changes. *)
Theorem zoom_targets_marker (P : Platform) (s : App.State) (row : nat)
    (m : object) :
  App.consistent P s ->
  App.markers s !! row = Some m ->
  exists r,
    App.distances s !! row = Some r /\
    r !! "geocode" = Some (VArr [prop m "latitude"; prop m "longitude"]) /\
    App.handle P (App.zoom_clicked row) s
    = Returned (App.MkState (App.position s) (App.distances s)
                  (App.locationEnabled s)
                  (Some [prop m "latitude"; prop m "longitude"])
                  (App.nearestMarker s) (App.markers s)).
Proof.
  intros [Hd _] Hm.
  exists (annotate P (App.locationEnabled s) (App.position s) m).
  assert (App.distances s !! row
          = Some (annotate P (App.locationEnabled s) (App.position s) m)) as Hr
    by (by rewrite Hd, list_lookup_fmap, Hm).
  split; [exact Hr|]. split; [apply annotate_geocode|].
  simpl. rewrite Hr. unfold prop. by rewrite !annotate_other.
Qed.

Lemma zoom_targets_marker_witness :
  exists r,
    [ranked_twin_a; ranked_twin_b] !! 1%nat = Some r /\
    r !! "geocode" = Some (VArr [VNum 0; VNum 0]) /\
    App.handle sample_platform (App.zoom_clicked 1)
      (App.MkState origin [ranked_twin_a; ranked_twin_b] true None
         (Some ranked_twin_b) [twin_a; twin_b])
    = Returned (App.MkState origin [ranked_twin_a; ranked_twin_b] true
                  (Some [VNum 0; VNum 0]) (Some ranked_twin_b)
                  [twin_a; twin_b]).
Proof.
  apply (zoom_targets_marker sample_platform
           (App.MkState origin [ranked_twin_a; ranked_twin_b] true None
              (Some ranked_twin_b) [twin_a; twin_b]) 1 twin_b).
  - split; [reflexivity|]. split; [reflexivity|].
    apply list_elem_of_further, list_elem_of_here.
  - reflexivity.
Defined.

(** X15: as long as no fetch has brought a marker, the first location
    found makes the component throw: a session in which the markers have
    not arrived, or could not be fetched, does not survive a location
    fix. *)
Theorem fix_without_markers_throws (P : Platform)
    (before after : list App.event) (lat lng : float) :
  default [] (App.last_fetched before) = [] ->
  App.run P (before ++ App.locationfound lat lng :: after) App.initial
  = Thrown TypeError.
Proof.
  intros H. rewrite run_app.
  destruct (App.run P before App.initial) as [s|[]] eqn:E; [|done].
  apply run_inputs in E as (_ & _ & Hm). simpl in Hm. rewrite H in Hm.
  simpl. assert (App.effect P
    (App.MkState (lat, lng) (App.distances s) true (App.zoomTarget s)
       (App.nearestMarker s) (App.markers s)) = Thrown TypeError) as ->; [|done].
  by apply effect_thrown.
Qed.

Lemma fix_without_markers_throws_witness :
  App.run sample_platform
    ([App.fetch_failed; App.zoom_clicked 0]
     ++ App.locationfound 48.5 2.25 :: [App.fetched [twin_a]])
    App.initial
  = Thrown TypeError.
Proof. apply fix_without_markers_throws. reflexivity. Defined.
End AppClaims.
